(** * throw-cruncher: the tolerant field parser, record builder, normaliser
    and aggregator of [src/main.rs], embedded in Rocq.

    Modelling choices:
    - [&str] cells are [string]s of ASCII characters; all the code's patterns
      and case conversions are ASCII, so this is the part of UTF-8 that matters.
    - An [f64] is [Fin q] (a finite value, kept as an exact rational in reduced
      form), [Inf neg] or [NaN].  Rounding to the nearest double, overflow to
      infinity and the sign of zero are not modelled; every special case of
      the IEEE operations the code uses (NaN propagation, infinities,
      comparisons with NaN being false) is.
    - A Rust panic ([unwrap], [expect]) is the [Panic] outcome of [prog]. *)

From Stdlib Require Import Bool Arith List ZArith QArith Lia.
From Stdlib Require Import Strings.String Strings.Ascii.
Import ListNotations.
Open Scope string_scope.

(** ** Programs that may panic, and Rust's [Result] *)

Inductive prog (A : Type) : Type :=
| Ret (a : A)
| Panic.
Arguments Ret {A} a.
Arguments Panic {A}.

Definition bind {A B} (m : prog A) (k : A -> prog B) : prog B :=
  match m with
  | Ret a => k a
  | Panic => Panic
  end.

Notation "x <- m ;; k" := (bind m (fun x => k)) (at level 61, m at next level, right associativity).

Inductive result (T E : Type) : Type :=
| Ok (t : T)
| Err (e : E).
Arguments Ok {T E} t.
Arguments Err {T E} e.

(** [Option::unwrap] *)
Definition unwrap {A} (o : option A) : prog A :=
  match o with
  | Some a => Ret a
  | None => Panic
  end.

(** ** The [f64] model *)

Inductive f64 : Type :=
| Fin (q : Q)
| Inf (neg : bool)
| NaN.

Definition f64_add (x y : f64) : f64 :=
  match x, y with
  | NaN, _ | _, NaN => NaN
  | Inf a, Inf b => if Bool.eqb a b then Inf a else NaN
  | Inf a, Fin _ | Fin _, Inf a => Inf a
  | Fin p, Fin q => Fin (Qred (p + q))
  end.

Definition Qlt_bool (p q : Q) : bool := negb (Qle_bool q p).
Definition Q_neg (q : Q) : bool := Qlt_bool q 0.
Definition Q_zero (q : Q) : bool := Qeq_bool q 0.

Definition f64_mul (x y : f64) : f64 :=
  match x, y with
  | NaN, _ | _, NaN => NaN
  | Inf a, Inf b => Inf (xorb a b)
  | Inf a, Fin q | Fin q, Inf a =>
      if Q_zero q then NaN else Inf (xorb a (Q_neg q))
  | Fin p, Fin q => Fin (Qred (p * q))
  end.

Definition f64_div (x y : f64) : f64 :=
  match x, y with
  | NaN, _ | _, NaN => NaN
  | Inf _, Inf _ => NaN
  | Inf a, Fin q => Inf (xorb a (Q_neg q))
  | Fin _, Inf _ => Fin 0
  | Fin p, Fin q =>
      if Q_zero q then (if Q_zero p then NaN else Inf (Q_neg p))
      else Fin (Qred (p / q))
  end.

(** [<] on [f64]: false as soon as one side is NaN. *)
Definition f64_lt (x y : f64) : bool :=
  match x, y with
  | NaN, _ | _, NaN => false
  | Inf a, Inf b => a && negb b
  | Inf a, Fin _ => a
  | Fin _, Inf b => negb b
  | Fin p, Fin q => Qlt_bool p q
  end.

(** [usize as f64] / [i32 as f64] for the small counters of [report]. *)
Definition f64_of_nat (n : nat) : f64 := Fin (Z.of_nat n # 1).

(** [f64::clamp] from core: [assert!(min <= max); if self < min { self = min };
    if self > max { self = max }; self]. *)
Definition f64_clamp (self min max : f64) : f64 :=
  let self := if f64_lt self min then min else self in
  let self := if f64_lt max self then max else self in
  self.

(** ** Characters and strings *)

Definition is_digit (c : ascii) : bool :=
  let n := nat_of_ascii c in ((48 <=? n) && (n <=? 57))%nat.

Definition digit_value (c : ascii) : Z := Z.of_nat (nat_of_ascii c - 48)%nat.

(** [u8::to_ascii_lowercase] and [str::to_ascii_lowercase] *)
Definition ascii_to_lower (c : ascii) : ascii :=
  let n := nat_of_ascii c in
  if ((65 <=? n) && (n <=? 90))%nat then ascii_of_nat (n + 32)%nat else c.

Fixpoint to_ascii_lowercase (s : string) : string :=
  match s with
  | EmptyString => EmptyString
  | String c s' => String (ascii_to_lower c) (to_ascii_lowercase s')
  end.

Fixpoint starts_with (s p : string) : bool :=
  match p, s with
  | EmptyString, _ => true
  | String c p', String d s' => Ascii.eqb c d && starts_with s' p'
  | String _ _, EmptyString => false
  end.

(** [str::contains] with a [&str] pattern *)
Fixpoint contains (s p : string) : bool :=
  starts_with s p ||
  match s with
  | EmptyString => false
  | String _ s' => contains s' p
  end.

Fixpoint take (n : nat) (s : string) : string :=
  match n, s with
  | O, _ | _, EmptyString => EmptyString
  | S n', String c s' => String c (take n' s')
  end.

(** ** [<f64 as FromStr>::from_str] (core's [dec2flt])

    Grammar accepted, with no surrounding whitespace:
    [Sign? ('inf' | 'infinity' | 'nan' | Number)], where
    [Number ::= (Digit+ | Digit+ '.' Digit* | Digit* '.' Digit+) Exp?],
    [Exp ::= ('e' | 'E') Sign? Digit+] and the words are case-insensitive. *)

Definition parse_sign (s : string) : bool * string :=
  match s with
  | String c s' =>
      if Ascii.eqb c "-"%char then (true, s')
      else if Ascii.eqb c "+"%char then (false, s')
      else (false, s)
  | EmptyString => (false, s)
  end.

Fixpoint span_digits (s : string) : string * string :=
  match s with
  | String c s' =>
      if is_digit c then let (d, r) := span_digits s' in (String c d, r)
      else (EmptyString, s)
  | EmptyString => (EmptyString, EmptyString)
  end.

Fixpoint digits_value_acc (acc : Z) (d : string) : Z :=
  match d with
  | EmptyString => acc
  | String c d' => digits_value_acc (acc * 10 + digit_value c)%Z d'
  end.

Definition digits_value (d : string) : Z := digits_value_acc 0%Z d.

(** [m * 10^k] as an exact rational *)
Definition decimal_value (m k : Z) : Q :=
  if (0 <=? k)%Z then Qmake (m * 10 ^ k)%Z 1
  else Qmake m (Z.to_pos (10 ^ (- k))%Z).

Definition parse_exp (s : string) : option Z :=
  match s with
  | EmptyString => Some 0%Z
  | String c s' =>
      if Ascii.eqb c "e"%char || Ascii.eqb c "E"%char then
        let (neg, s2) := parse_sign s' in
        let (d, r) := span_digits s2 in
        if negb (String.eqb d EmptyString) && String.eqb r EmptyString
        then Some (if neg then (- digits_value d)%Z else digits_value d)
        else None
      else None
  end.

Definition parse_number (s : string) : option Q :=
  let (d1, r1) := span_digits s in
  let '(d2, r2) :=
    match r1 with
    | String c r => if Ascii.eqb c "."%char then span_digits r else (EmptyString, r1)
    | EmptyString => (EmptyString, r1)
    end in
  if (String.length d1 + String.length d2 =? 0)%nat then None
  else match parse_exp r2 with
       | None => None
       | Some e =>
           Some (Qred (decimal_value (digits_value (d1 ++ d2))
                                     (e - Z.of_nat (String.length d2))%Z))
       end.

Definition parse_f64 (s : string) : option f64 :=
  let (neg, s') := parse_sign s in
  let l := to_ascii_lowercase s' in
  if String.eqb l "inf" || String.eqb l "infinity" then Some (Inf neg)
  else if String.eqb l "nan" then Some NaN
  else option_map (fun q => Fin (if neg then Qred (- q) else q)) (parse_number s').

(** ** The [regex] crate on the pattern [([-]?[0-9]*\.?,?[0-9]+)]

    A backtracking matcher over a small pattern language (optional, star and
    plus over a character class); the first successful path in priority order
    (greedy before lazy, leftmost start first) is the match the crate reports
    (leftmost-first semantics). *)

Inductive class : Type :=
| Lit (c : ascii)
| Digit.

Definition class_matches (k : class) (c : ascii) : bool :=
  match k with
  | Lit d => Ascii.eqb c d
  | Digit => is_digit c
  end.

Inductive item : Type :=
| Opt (k : class)
| Star (k : class)
| Plus (k : class).

(** greedy repetition of [k], then the continuation [cont] *)
Fixpoint match_star (k : class) (cont : string -> option string) (s : string)
  : option string :=
  match s with
  | String c s' =>
      if class_matches k c then
        match match_star k cont s' with
        | Some r => Some r
        | None => cont s
        end
      else cont s
  | EmptyString => cont s
  end.

(** [match_items p s]: the rest of [s] after the first match of [p] anchored
    at the start of [s] *)
Fixpoint match_items (p : list item) (s : string) : option string :=
  match p with
  | [] => Some s
  | Opt k :: p' =>
      match s with
      | String c s' =>
          if class_matches k c then
            match match_items p' s' with
            | Some r => Some r
            | None => match_items p' s
            end
          else match_items p' s
      | EmptyString => match_items p' s
      end
  | Star k :: p' => match_star k (match_items p') s
  | Plus k :: p' =>
      match s with
      | String c s' =>
          if class_matches k c then match_star k (match_items p') s' else None
      | EmptyString => None
      end
  end.

(** leftmost start position first; the matched text *)
Fixpoint find (p : list item) (s : string) : option string :=
  match match_items p s with
  | Some r => Some (take (String.length s - String.length r) s)
  | None =>
      match s with
      | EmptyString => None
      | String _ s' => find p s'
      end
  end.

(** [[-]?[0-9]*\.?,?[0-9]+] *)
Definition REGEX : list item :=
  [Opt (Lit "-"%char); Star Digit; Opt (Lit "."%char); Opt (Lit ","%char); Plus Digit].

(** ** [best_effort_parse_float] *)

(** [enum FloatNote { Float(f64), FloatNote(f64, &str) }]; the second variant
    is [FloatNote_] here, since it cannot share the name of its type. *)
Inductive FloatNote : Type :=
| Float (f : f64)
| FloatNote_ (f : f64) (note : string).

Definition best_effort_parse_float (input : string) : prog (result FloatNote string) :=
  match parse_f64 input with
  | Some result => Ret (Ok (Float result))
  | None =>
      match find REGEX input with
      | Some capture =>
          f <- unwrap (parse_f64 capture) ;;
          Ret (Ok (FloatNote_ f input))
      | None => Ret (Err input)
      end
  end.

(** ** [Fruit] and [Fruit::from_iter] *)

Record Fruit : Type := mkFruit {
  would_throw : bool;
  expected_rancidness : option f64;
  desired_rancidness : option f64;
  notes : string
}.

Definition parse_bool (input : string) : result bool string :=
  if String.eqb input "Yes" then Ok true
  else if String.eqb input "No" then Ok false
  else Err ("malformed bool: " ++ input).

(** the "fresh" heuristic of both [Err(note)] arms *)
Definition fresh_fallback (note : string) : option f64 :=
  if contains (to_ascii_lowercase note) "fresh" then Some (Fin 1) else None.

(** [iter.next().ok_or("end of row")?]: the iterator is the list of the
    remaining cells. *)
Definition Fruit_from_iter (iter : list string)
  : prog (result (Fruit * list string) string) :=
  let notes := EmptyString in
  match iter with
  | [] => Ret (Err "end of row")
  | b :: iter =>
  match parse_bool b with
  | Err e => Ret (Err e)
  | Ok would_throw =>
  match iter with
  | [] => Ret (Err "end of row")
  | e :: iter =>
  r1 <- best_effort_parse_float e ;;
  let '(notes, expected_rancidness) :=
    match r1 with
    | Ok (Float f) => (notes, Some f)
    | Ok (FloatNote_ f note) => (notes ++ note, Some f)
    | Err note => (notes ++ note, fresh_fallback note)
    end in
  let separator := if String.eqb notes EmptyString then EmptyString else " | " in
  match iter with
  | [] => Ret (Err "end of row")
  | d :: iter =>
  r2 <- best_effort_parse_float d ;;
  let '(notes, desired_rancidness) :=
    match r2 with
    | Ok (Float f) => (notes, Some f)
    | Ok (FloatNote_ f note) => (notes ++ separator ++ note, Some f)
    | Err note => (notes ++ separator ++ note, fresh_fallback note)
    end in
  Ret (Ok (mkFruit would_throw expected_rancidness desired_rancidness notes, iter))
  end end end end.

Definition clamp_rating (f : f64) : f64 := f64_clamp f (Fin 1) (Fin 5).

Definition massage (self : Fruit) : Fruit :=
  mkFruit self.(would_throw)
          (option_map clamp_rating self.(expected_rancidness))
          (option_map clamp_rating self.(desired_rancidness))
          self.(notes).

(** ** [Response]: the twenty fruits in field order *)

Definition fruit_names : list string :=
  ["artichoke"; "avocado"; "banana"; "brussels_sprout"; "cantaloupe";
   "cauliflower"; "chard"; "crimini_mushroom"; "golden_beet"; "jalapeno";
   "kiwi"; "korean_melon"; "lime"; "pear"; "plucot"; "red_grapefruit";
   "red_onion"; "straightneck_squash"; "strawberry"; "tomatillo"].

Definition Response : Type := list Fruit.

(** one [Fruit::from_iter(iter)?] per field, in field order *)
Fixpoint fruits_from_iter (names : list string) (iter : list string)
  : prog (result (Response * list string) string) :=
  match names with
  | [] => Ret (Ok ([], iter))
  | _ :: names' =>
      r <- Fruit_from_iter iter ;;
      match r with
      | Err e => Ret (Err e)
      | Ok (f, iter') =>
          rs <- fruits_from_iter names' iter' ;;
          match rs with
          | Err e => Ret (Err e)
          | Ok (fs, iter'') => Ret (Ok (f :: fs, iter''))
          end
      end
  end.

Definition Response_from_iter (iter : list string) : prog (result Response string) :=
  r <- fruits_from_iter fruit_names iter ;;
  match r with
  | Err e => Ret (Err e)
  | Ok (fs, _) => Ret (Ok fs)
  end.

Definition Response_massage (self : Response) : Response := map massage self.

(** [reader.records().map(Result::unwrap)
      .map(|r| Response::from_iter(&mut r.iter().skip(3)))
      .collect::<Result<Vec<Response>, _>>()]: stops at the first [Err]. *)
Fixpoint collect_responses (records : list (list string))
  : prog (result (list Response) string) :=
  match records with
  | [] => Ret (Ok [])
  | r :: records' =>
      x <- Response_from_iter (skipn 3 r) ;;
      match x with
      | Err e => Ret (Err e)
      | Ok resp =>
          xs <- collect_responses records' ;;
          match xs with
          | Err e => Ret (Err e)
          | Ok resps => Ret (Ok (resp :: resps))
          end
      end
  end.

(** [... .expect("data ingest error")] in [main] *)
Definition ingest (records : list (list string)) : prog (list Response) :=
  x <- collect_responses records ;;
  match x with
  | Ok responses => Ret responses
  | Err _ => Panic
  end.

(** ** [report] *)

(** [.filter_map(|f| f.expected_rancidness)] and the like *)
Fixpoint filter_map {A B} (g : A -> option B) (l : list A) : list B :=
  match l with
  | [] => []
  | x :: l' => match g x with Some y => y :: filter_map g l' | None => filter_map g l' end
  end.

(** [.zip(1..)] *)
Fixpoint zip_from {A} (i : nat) (l : list A) : list (A * nat) :=
  match l with
  | [] => []
  | x :: l' => (x, i) :: zip_from (S i) l'
  end.

(** [|s, (e, i)| (e as f64 + s * (i - 1) as f64) / i as f64] *)
Definition avg_step (s : f64) (p : f64 * nat) : f64 :=
  let '(e, i) := p in
  f64_div (f64_add e (f64_mul s (f64_of_nat (i - 1)))) (f64_of_nat i).

Definition running_average (vs : list f64) : f64 :=
  fold_left avg_step (zip_from 1 vs) (Fin 0).

Definition report (fruits : list Fruit) : nat * nat * f64 * f64 :=
  (List.length (filter_map (fun f => if f.(would_throw) then Some tt else None) fruits),
   List.length (filter_map (fun f => if negb f.(would_throw) then Some tt else None) fruits),
   running_average (filter_map expected_rancidness fruits),
   running_average (filter_map desired_rancidness fruits)).

(** ** [FlattenedResponse], [VecResponse], [FlattenedReport] and [main]

    The source's structs with one field (or three, or four) per fruit are
    lists in [fruit_names] order here, as [Response] is. *)

(** [FlattenedResponse::map]: the [would_throw], [expected_rancidness] and
    [desired_rancidness] columns of each fruit, in field order ([notes] is not
    a column). *)
Definition FlattenedResponse_map (response : Response)
  : list (bool * option f64 * option f64) :=
  map (fun f => (f.(would_throw), f.(expected_rancidness), f.(desired_rancidness)))
      response.

(** [artichoke.push(response.artichoke); ...]: one push per fruit *)
Fixpoint push_each (cols : list (list Fruit)) (response : Response)
  : list (list Fruit) :=
  match cols, response with
  | col :: cols', f :: fs => (col ++ [f])%list :: push_each cols' fs
  | _, _ => cols
  end.

(** [VecResponse::from_iter]: twenty [Vec::default()], then
    [for response in iter { ... }] *)
Definition VecResponse_from_iter (iter : list Response) : list (list Fruit) :=
  fold_left push_each iter (repeat [] (List.length fruit_names)).

(** [FlattenedReport::from_vec_response]: [report(&vec_response.artichoke)]
    and so on for each fruit *)
Definition FlattenedReport_from_vec_response (vec_response : list (list Fruit))
  : list (nat * nat * f64 * f64) :=
  map report vec_response.

(** the four artifacts [main] writes, in order: [result_ingested.json],
    [result_massaged.json], the rows of [result_massaged.csv] and the row of
    [result.csv] *)
Definition main_outputs (records : list (list string))
  : prog (list Response * list Response *
          list (list (bool * option f64 * option f64)) *
          list (nat * nat * f64 * f64)) :=
  responses <- ingest records ;;
  let massaged_responses := map Response_massage responses in
  Ret (responses, massaged_responses,
       map FlattenedResponse_map massaged_responses,
       FlattenedReport_from_vec_response (VecResponse_from_iter massaged_responses)).

(** ** Auxiliary definitions for stating the properties *)

(** a cell outcome that needed non-strict parsing (regex recovery or total
    failure) *)
Definition nonstrict (r : result FloatNote string) : bool :=
  match r with
  | Ok (Float _) => false
  | _ => true
  end.

(** ** Helper lemmas *)

Lemma best_effort_note_is_input (s n : string) (f : f64) :
  (best_effort_parse_float s = Ret (Ok (FloatNote_ f n)) -> n = s) /\
  (best_effort_parse_float s = Ret (Err n) -> n = s).
Proof.
  unfold best_effort_parse_float.
  destruct (parse_f64 s); [split; discriminate|].
  destruct (find REGEX s) as [m|].
  - destruct (parse_f64 m); simpl; split; congruence.
  - split; congruence.
Qed.

(** the shape of a successful [Fruit::from_iter] *)
Lemma Fruit_from_iter_ok (iter : list string) (fr : Fruit) (rest : list string) :
  Fruit_from_iter iter = Ret (Ok (fr, rest)) ->
  exists b e d wt r1 r2,
    iter = b :: e :: d :: rest /\ parse_bool b = Ok wt /\
    best_effort_parse_float e = Ret r1 /\ best_effort_parse_float d = Ret r2 /\
    Fruit_from_iter iter =
      (let '(notes, expected_rancidness) :=
         match r1 with
         | Ok (Float f) => (EmptyString, Some f)
         | Ok (FloatNote_ f note) => (EmptyString ++ note, Some f)
         | Err note => (EmptyString ++ note, fresh_fallback note)
         end in
       let separator := if String.eqb notes EmptyString then EmptyString else " | " in
       let '(notes, desired_rancidness) :=
         match r2 with
         | Ok (Float f) => (notes, Some f)
         | Ok (FloatNote_ f note) => (notes ++ separator ++ note, Some f)
         | Err note => (notes ++ separator ++ note, fresh_fallback note)
         end in
       Ret (Ok (mkFruit wt expected_rancidness desired_rancidness notes, rest))).
Proof.
  intro H.
  destruct iter as [|b [|e [|d iter]]]; unfold Fruit_from_iter in H |- *;
    try discriminate; destruct (parse_bool b) as [wt|] eqn:Eb; try discriminate.
  - destruct (best_effort_parse_float e) as [r1|]; simpl in H; try discriminate.
    destruct r1 as [[]|]; discriminate.
  - destruct (best_effort_parse_float e) as [r1|] eqn:E1; simpl in H; try discriminate.
    destruct (best_effort_parse_float d) as [r2|] eqn:E2; simpl in H;
      [| destruct r1 as [[]|]; discriminate].
    exists b, e, d, wt, r1, r2.
    assert (iter = rest) as <-.
    { destruct r1 as [[]|], r2 as [[]|]; simpl in H; congruence. }
    repeat split; try assumption; reflexivity.
Qed.

Lemma best_effort_total_failure (s : string) :
  parse_f64 s = None -> find REGEX s = None ->
  best_effort_parse_float s = Ret (Err s).
Proof. intros H1 H2. unfold best_effort_parse_float. rewrite H1, H2. reflexivity. Qed.

Lemma best_effort_strict (s : string) (v : f64) :
  parse_f64 s = Some v -> best_effort_parse_float s = Ret (Ok (Float v)).
Proof. intros H. unfold best_effort_parse_float. rewrite H. reflexivity. Qed.

Lemma string_app_nil_r (s : string) : s ++ EmptyString = s.
Proof. induction s; simpl; congruence. Qed.

Lemma string_app_assoc (s t u : string) : s ++ (t ++ u) = (s ++ t) ++ u.
Proof. induction s; simpl; congruence. Qed.

Lemma string_app_empty (s t : string) : s ++ t = EmptyString <-> s = EmptyString /\ t = EmptyString.
Proof. destruct s; simpl; split; intuition congruence. Qed.

(** Unfold a successful [Fruit::from_iter] on three cells into its pieces. *)
Ltac open_from_iter H :=
  let b' := fresh "b" in let e' := fresh "e" in let d' := fresh "d" in
  let wt := fresh "wt" in let r1 := fresh "r1" in let r2 := fresh "r2" in
  let Hc := fresh "Hc" in let Hb := fresh "Hb" in let E1 := fresh "E1" in
  let E2 := fresh "E2" in let Hf := fresh "Hf" in
  pose proof (Fruit_from_iter_ok _ _ _ H)
    as (b' & e' & d' & wt & r1 & r2 & Hc & Hb & E1 & E2 & Hf);
  injection Hc as <- <- <- ->;
  rewrite Hf in H; clear Hf.

(** C3: on total parse failure of a rating cell (no strict parse, no match of
    the embedded-number pattern) the rating is exactly [1] when the cell,
    lower-cased, contains "fresh" and absent otherwise; the cell's text is in
    the notes (at the start for the expected cell, at the end for the
    desired cell). *)
Theorem total_failure_fresh_fallback (b e d : string) (iter : list string)
    (fr : Fruit) (rest : list string) :
  Fruit_from_iter (b :: e :: d :: iter) = Ret (Ok (fr, rest)) ->
  (parse_f64 e = None -> find REGEX e = None ->
     expected_rancidness fr =
       (if contains (to_ascii_lowercase e) "fresh" then Some (Fin 1) else None) /\
     exists sfx, notes fr = e ++ sfx) /\
  (parse_f64 d = None -> find REGEX d = None ->
     desired_rancidness fr =
       (if contains (to_ascii_lowercase d) "fresh" then Some (Fin 1) else None) /\
     exists pre, notes fr = pre ++ d).
Proof.
  intro H. open_from_iter H. split; intros P1 P2.
  - rewrite (best_effort_total_failure _ P1 P2) in E1. injection E1 as <-.
    destruct r2 as [[]|]; simpl in H; injection H as <-; simpl;
      (split; [reflexivity|]);
      first [exists EmptyString; rewrite string_app_nil_r; reflexivity | eauto].
  - rewrite (best_effort_total_failure _ P1 P2) in E2. injection E2 as <-.
    destruct r1 as [[]|]; simpl in H; injection H as <-; simpl;
      (split; [reflexivity|]);
      first [exists EmptyString; reflexivity
            | eexists; rewrite ?string_app_assoc; reflexivity].
Qed.

(** C10: the "fresh" fallback never overrides a recovered embedded number:
    when the parser recovers [v] from a rating cell (outcome (b)), the
    rating is [v], whatever else the text contains. *)
Theorem recovered_number_not_overridden (b e d : string) (iter : list string)
    (fr : Fruit) (rest : list string) (v : f64) :
  Fruit_from_iter (b :: e :: d :: iter) = Ret (Ok (fr, rest)) ->
  (best_effort_parse_float e = Ret (Ok (FloatNote_ v e)) ->
     expected_rancidness fr = Some v) /\
  (best_effort_parse_float d = Ret (Ok (FloatNote_ v d)) ->
     desired_rancidness fr = Some v).
Proof.
  intro H. open_from_iter H. split; intros P.
  - rewrite P in E1. injection E1 as <-.
    destruct r2 as [[]|]; simpl in H; injection H as <-; reflexivity.
  - rewrite P in E2. injection E2 as <-.
    destruct r1 as [[]|]; simpl in H; injection H as <-; reflexivity.
Qed.

(** C4 (counterexample): an empty expected cell needs non-strict parsing
    (total failure) but its note is the empty text, so the notes of the
    record are empty. *)
Lemma empty_cell_leaves_no_note :
  best_effort_parse_float "" = Ret (Err "") /\
  nonstrict (Err "") = true /\
  Fruit_from_iter ["Yes"; ""; "3"] =
    Ret (Ok (mkFruit true None (Some (Fin 3)) EmptyString, [])).
Proof. repeat split; reflexivity. Qed.

(** C4 (amended): the notes of a built record are the text of the expected
    cell if it needed non-strict parsing, followed, if the desired cell did,
    by " | " (only when the first part is non-empty) and the desired cell's
    text; so they are non-empty exactly when a non-strictly parsed cell has
    non-empty text, and empty when both cells parse strictly. *)
Theorem notes_provenance (b e d : string) (iter : list string) (fr : Fruit)
    (rest : list string) (r1 r2 : result FloatNote string) :
  best_effort_parse_float e = Ret r1 ->
  best_effort_parse_float d = Ret r2 ->
  Fruit_from_iter (b :: e :: d :: iter) = Ret (Ok (fr, rest)) ->
  let ne := if nonstrict r1 then e else EmptyString in
  notes fr =
    (if nonstrict r2
     then ne ++ (if String.eqb ne EmptyString then EmptyString else " | ") ++ d
     else ne) /\
  (notes fr <> EmptyString <->
     (nonstrict r1 = true /\ e <> EmptyString) \/
     (nonstrict r2 = true /\ d <> EmptyString)).
Proof.
  intros R1 R2 H. open_from_iter H.
  rewrite R1 in E1. injection E1 as <-. rewrite R2 in E2. injection E2 as <-.
  destruct r1 as [[f1|f1 n1]|n1];
    [| pose proof (proj1 (best_effort_note_is_input e n1 f1) R1) as ->
     | pose proof (proj2 (best_effort_note_is_input e n1 NaN) R1) as ->];
  (destruct r2 as [[f2|f2 n2]|n2];
    [| pose proof (proj1 (best_effort_note_is_input d n2 f2) R2) as ->
     | pose proof (proj2 (best_effort_note_is_input d n2 NaN) R2) as ->]);
  simpl in H; injection H as <-; cbn zeta;
  (split; [reflexivity|]); simpl; clear;
  destruct e as [|ce e], d as [|cd d]; simpl;
  intuition (try discriminate; try congruence).
Qed.

(** a value on the documented scale [[1, 5]] *)
Definition in_scale (v : f64) : Prop := exists q, v = Fin q /\ (1 <= q <= 5)%Q.

Lemma Qlt_bool_false (p q : Q) : Qlt_bool p q = false <-> (q <= p)%Q.
Proof.
  unfold Qlt_bool. destruct (Qle_bool q p) eqn:E; simpl.
  - split; [intros _; apply Qle_bool_iff; exact E | reflexivity].
  - split; [discriminate | intros H; apply Qle_bool_iff in H; congruence].
Qed.

Lemma Qlt_bool_true (p q : Q) : Qlt_bool p q = true <-> (p < q)%Q.
Proof.
  destruct (Qlt_bool p q) eqn:E.
  - split; [intros _ | reflexivity].
    destruct (Qlt_le_dec p q) as [L|L]; [exact L|].
    apply Qlt_bool_false in L. congruence.
  - split; [discriminate|]. intros L. apply Qlt_bool_false in E.
    exfalso. apply (Qlt_not_le p q); assumption.
Qed.

Lemma clamp_rating_in_scale_id (q : Q) :
  (1 <= q <= 5)%Q -> clamp_rating (Fin q) = Fin q.
Proof.
  intros [L1 L2]. unfold clamp_rating, f64_clamp; simpl.
  rewrite (proj2 (Qlt_bool_false q 1) L1), (proj2 (Qlt_bool_false 5 q) L2).
  reflexivity.
Qed.

(** [clamp(1.0, 5.0)] gives a value on the scale, or NaN from NaN *)
Lemma clamp_rating_range (f : f64) :
  (f = NaN /\ clamp_rating f = NaN) \/ (f <> NaN /\ in_scale (clamp_rating f)).
Proof.
  destruct f as [q|[]|]; [right; split; [discriminate|] | right | right | left; auto].
  - unfold clamp_rating, f64_clamp; simpl.
    destruct (Qlt_bool q 1) eqn:E1; simpl.
    + exists 1%Q. split; [reflexivity|]. split; [apply Qle_refl|].
      unfold Qle; simpl; lia.
    + apply Qlt_bool_false in E1.
      destruct (Qlt_bool 5 q) eqn:E2.
      * exists 5%Q. split; [reflexivity|]. split; [unfold Qle; simpl; lia|apply Qle_refl].
      * apply Qlt_bool_false in E2. exists q. auto.
  - split; [discriminate|]. exists 1%Q. split; [reflexivity|].
    split; unfold Qle; simpl; lia.
  - split; [discriminate|]. exists 5%Q. split; [reflexivity|].
    split; unfold Qle; simpl; lia.
Qed.

Lemma clamp_rating_idempotent (f : f64) : clamp_rating (clamp_rating f) = clamp_rating f.
Proof.
  destruct (clamp_rating_range f) as [[-> ->] | [_ (q & E & R)]].
  - reflexivity.
  - rewrite E. apply clamp_rating_in_scale_id. exact R.
Qed.

(** C5 (counterexample): the cell "NaN" is accepted by Rust's float parser,
    and [clamp] keeps NaN, so a normalised record can hold a rating outside
    [[1, 5]]. *)
Lemma massage_nan_not_in_scale :
  Fruit_from_iter ["Yes"; "NaN"; "3"] =
    Ret (Ok (mkFruit true (Some NaN) (Some (Fin 3)) EmptyString, [])) /\
  ~ (forall (x : Fruit) (v : f64),
       expected_rancidness (massage x) = Some v -> in_scale v).
Proof.
  split; [reflexivity|].
  intros H.
  destruct (H (mkFruit true (Some NaN) (Some (Fin 3)) EmptyString) NaN eq_refl)
    as (q & E & _).
  discriminate.
Qed.

(** C5 (amended): [massage] is idempotent, and every rating present after
    it is on the scale [[1, 5]], except a NaN rating, which stays NaN. *)
Theorem massage_idempotent_in_scale (x : Fruit) :
  massage (massage x) = massage x /\
  (forall v, expected_rancidness (massage x) = Some v ->
     in_scale v \/ (v = NaN /\ expected_rancidness x = Some NaN)) /\
  (forall v, desired_rancidness (massage x) = Some v ->
     in_scale v \/ (v = NaN /\ desired_rancidness x = Some NaN)).
Proof.
  destruct x as [wt [ex|] [de|] nt]; unfold massage; simpl;
    rewrite ?clamp_rating_idempotent;
    (split; [reflexivity|]);
    split; intros v Hv; try discriminate; injection Hv as <-;
    match goal with
    | |- context [clamp_rating ?f] =>
        destruct (clamp_rating_range f) as [[-> ->] | [_ R]]; auto
    end.
Qed.

(** C9: [massage] keeps [would_throw] and [notes], and an absent rating
    stays absent (a present one stays present). *)
Theorem massage_frame (x : Fruit) :
  would_throw (massage x) = would_throw x /\
  notes (massage x) = notes x /\
  (expected_rancidness (massage x) = None <-> expected_rancidness x = None) /\
  (desired_rancidness (massage x) = None <-> desired_rancidness x = None).
Proof.
  destruct x as [wt [ex|] [de|] nt]; unfold massage; simpl;
    repeat split; congruence.
Qed.

(** C1 (failing input): the pattern admits a comma before the last digit
    group, Rust's float parser rejects it, and the [unwrap] panics: "3,5"
    matches as "3,5" and [best_effort_parse_float] panics. *)
Theorem best_effort_parse_float_comma_panics :
  parse_f64 "3,5" = None /\ find REGEX "3,5" = Some "3,5" /\
  best_effort_parse_float "3,5" = Panic.
Proof. repeat split; reflexivity. Qed.

(** C7 (failing input): an embedded number written with a comma,
    "about 3,5", is matched as "3,5" and the parser panics instead of
    returning a recovered number. *)
Theorem best_effort_parse_float_embedded_comma_panics :
  find REGEX "about 3,5" = Some "3,5" /\
  best_effort_parse_float "about 3,5" = Panic.
Proof. split; reflexivity. Qed.

(** C6 (counterexample): the cell is not trimmed: " 3.5" parses strictly
    after trimming, but the parser recovers it through the pattern, with the
    cell as a note. *)
Lemma untrimmed_cell_gets_note :
  parse_f64 "3.5" = Some (Fin (7 # 2)) /\
  best_effort_parse_float " 3.5" = Ret (Ok (FloatNote_ (Fin (7 # 2)) " 3.5")).
Proof. split; reflexivity. Qed.

(** C6 (amended): every cell text that Rust's float parser accepts as a
    whole, untrimmed, is returned as that value with no note (outcome (a));
    "3.5" gives 3.5. *)
Theorem strict_parse_no_note (s : string) (v : f64) :
  parse_f64 s = Some v ->
  best_effort_parse_float s = Ret (Ok (Float v)) /\
  best_effort_parse_float "3.5" = Ret (Ok (Float (Fin (7 # 2)))).
Proof. intros H. split; [apply best_effort_strict; exact H | reflexivity]. Qed.

Lemma collect_responses_cons (r : list string) (rs : list (list string)) :
  collect_responses (r :: rs) =
  (x <- Response_from_iter (skipn 3 r) ;;
   match x with
   | Err e => Ret (Err e)
   | Ok resp =>
       xs <- collect_responses rs ;;
       match xs with
       | Err e => Ret (Err e)
       | Ok resps => Ret (Ok (resp :: resps))
       end
   end).
Proof. reflexivity. Qed.

Lemma collect_responses_app (pre post : list (list string)) (row : list string) :
  (exists e, Response_from_iter (skipn 3 row) = Ret (Err e)) ->
  exists e, collect_responses (pre ++ row :: post)%list = Ret (Err e) \/
            collect_responses (pre ++ row :: post)%list = Panic.
Proof.
  intros [e He]. induction pre as [|r pre IH]; simpl app; rewrite collect_responses_cons.
  - rewrite He. simpl. exists e. left. reflexivity.
  - destruct (Response_from_iter (skipn 3 r)) as [[resp|e']|]; simpl.
    + destruct IH as [e'' [-> | ->]]; simpl; exists e''; auto.
    + exists e'. left. reflexivity.
    + exists e. right. reflexivity.
Qed.

(** C8: "Yes" is [true], "No" is [false], and any other flag text is a
    hard error: [Fruit::from_iter] fails on it, the row's
    [Response::from_iter] fails, and ingesting any dataset holding such a row
    (first flag after the three metadata cells) panics in [main]'s
    [expect]. *)
Theorem parse_bool_strict (s : string) :
  parse_bool "Yes" = Ok true /\ parse_bool "No" = Ok false /\
  (s <> "Yes" -> s <> "No" ->
   parse_bool s = Err ("malformed bool: " ++ s) /\
   (forall iter, Fruit_from_iter (s :: iter) = Ret (Err ("malformed bool: " ++ s))) /\
   (forall iter, Response_from_iter (s :: iter) = Ret (Err ("malformed bool: " ++ s))) /\
   (forall pre meta iter post, List.length meta = 3%nat ->
      ingest (pre ++ (meta ++ s :: iter) :: post)%list = Panic)).
Proof.
  assert (Hp : s <> "Yes" -> s <> "No" -> parse_bool s = Err ("malformed bool: " ++ s)).
  { intros N1 N2. unfold parse_bool.
    destruct (String.eqb_spec s "Yes"); [contradiction|].
    destruct (String.eqb_spec s "No"); [contradiction|]. reflexivity. }
  split; [reflexivity|]. split; [reflexivity|]. intros N1 N2.
  specialize (Hp N1 N2).
  assert (Hf : forall iter, Fruit_from_iter (s :: iter) = Ret (Err ("malformed bool: " ++ s))).
  { intros iter. unfold Fruit_from_iter. rewrite Hp. reflexivity. }
  assert (Hr : forall iter, Response_from_iter (s :: iter) = Ret (Err ("malformed bool: " ++ s))).
  { intros iter. unfold Response_from_iter. cbn [fruit_names fruits_from_iter].
    rewrite Hf. reflexivity. }
  split; [exact Hp|]. split; [exact Hf|]. split; [exact Hr|].
  intros pre meta iter post Hm.
  assert (Hs : skipn 3 (meta ++ s :: iter)%list = s :: iter).
  { destruct meta as [|a [|b [|c [|]]]]; simpl in Hm; try discriminate. reflexivity. }
  destruct (collect_responses_app pre post (meta ++ s :: iter)%list) as [e [E|E]].
  - rewrite Hs. eauto.
  - unfold ingest. rewrite E. reflexivity.
  - unfold ingest. rewrite E. reflexivity.
Qed.

Lemma report_counts_sum (fruits : list Fruit) :
  (List.length (filter_map (fun f => if f.(would_throw) then Some tt else None) fruits) +
   List.length (filter_map (fun f => if negb f.(would_throw) then Some tt else None) fruits))%nat
  = List.length fruits.
Proof.
  induction fruits as [|f fs IH]; [reflexivity|].
  simpl. destruct (would_throw f); simpl; lia.
Qed.

Lemma zip_from_indices (i : nat) (vs : list f64) :
  Forall (fun p => (i <= snd p)%nat) (zip_from i vs).
Proof.
  revert i. induction vs as [|v vs IH]; intros i; simpl; constructor; simpl.
  - lia.
  - specialize (IH (S i)). eapply Forall_impl; [|exact IH]. simpl; intros; lia.
Qed.

Lemma zip_from_snoc (i : nat) (vs : list f64) (v : f64) :
  zip_from i (vs ++ [v])%list = (zip_from i vs ++ [(v, (i + List.length vs)%nat)])%list.
Proof.
  revert i. induction vs as [|w vs IH]; intros i; simpl.
  - rewrite Nat.add_0_r. reflexivity.
  - rewrite IH. simpl. repeat f_equal. lia.
Qed.

(** the running average after one more present value [v] *)
Lemma running_average_snoc (vs : list f64) (v : f64) :
  running_average (vs ++ [v])%list =
  f64_div (f64_add v (f64_mul (running_average vs) (f64_of_nat (List.length vs))))
          (f64_of_nat (S (List.length vs))).
Proof.
  unfold running_average. rewrite zip_from_snoc, fold_left_app. simpl.
  rewrite Nat.sub_0_r. reflexivity.
Qed.

(** C2: the two counts of [report] add up to the number of rows; each
    average is the running average, over the present values only, of the
    update [s' = (v + s * (i - 1)) / i] from [0]: its divisors [i] are all at
    least [1], a further present value [v] moves it by that update, it is [0]
    with no present value, and the expected values [2], absent, [4] average
    to [3]. *)
Theorem report_counts_and_averages (fruits : list Fruit) :
  (let '(t, n, _, _) := report fruits in (t + n)%nat = List.length fruits) /\
  (let '(_, _, ae, ad) := report fruits in
     ae = running_average (filter_map expected_rancidness fruits) /\
     ad = running_average (filter_map desired_rancidness fruits)) /\
  Forall (fun p => (1 <= snd p)%nat)
         (zip_from 1 (filter_map expected_rancidness fruits)) /\
  Forall (fun p => (1 <= snd p)%nat)
         (zip_from 1 (filter_map desired_rancidness fruits)) /\
  (forall vs v, running_average (vs ++ [v])%list =
     f64_div (f64_add v (f64_mul (running_average vs) (f64_of_nat (List.length vs))))
             (f64_of_nat (S (List.length vs)))) /\
  running_average [] = Fin 0 /\
  (let '(_, _, ae, _) :=
     report [mkFruit true (Some (Fin 2)) None EmptyString;
             mkFruit false None None EmptyString;
             mkFruit true (Some (Fin 4)) None EmptyString] in
   ae = Fin 3).
Proof.
  split; [apply report_counts_sum|].
  split; [split; reflexivity|].
  split; [apply zip_from_indices|].
  split; [apply zip_from_indices|].
  split; [apply running_average_snoc|].
  split; reflexivity.
Qed.

(** ** Witnesses: the theorems above applied at concrete inputs *)

Definition fresh_record : Fruit :=
  mkFruit true (Some (Fin 1)) None "Fresh! | unsure".

Lemma total_failure_fresh_fallback_witness :
  Fruit_from_iter ["Yes"; "Fresh!"; "unsure"] = Ret (Ok (fresh_record, [])) /\
  expected_rancidness fresh_record = Some (Fin 1) /\
  desired_rancidness fresh_record = None.
Proof.
  destruct (total_failure_fresh_fallback "Yes" "Fresh!" "unsure" [] fresh_record []
              ltac:(reflexivity)) as [H1 H2].
  split; [reflexivity|]. split.
  - exact (proj1 (H1 ltac:(reflexivity) ltac:(reflexivity))).
  - exact (proj1 (H2 ltac:(reflexivity) ltac:(reflexivity))).
Defined.

Definition fresh2_record : Fruit :=
  mkFruit false (Some (Fin 2)) (Some (Fin 3)) "fresh 2 | Fresh 3".

Lemma recovered_number_not_overridden_witness :
  Fruit_from_iter ["No"; "fresh 2"; "Fresh 3"] = Ret (Ok (fresh2_record, [])) /\
  expected_rancidness fresh2_record = Some (Fin 2) /\
  desired_rancidness fresh2_record = Some (Fin 3).
Proof.
  split; [reflexivity|]. split.
  - exact (proj1 (recovered_number_not_overridden "No" "fresh 2" "Fresh 3" [] fresh2_record []
                   (Fin 2) ltac:(reflexivity)) ltac:(reflexivity)).
  - exact (proj2 (recovered_number_not_overridden "No" "fresh 2" "Fresh 3" [] fresh2_record []
                   (Fin 3) ltac:(reflexivity)) ltac:(reflexivity)).
Defined.

Definition notes_record : Fruit :=
  mkFruit true (Some (Fin 2)) (Some (Fin 4)) "about 2 | 4ish".

Lemma notes_provenance_witness :
  notes notes_record = "about 2 | 4ish" /\ notes notes_record <> EmptyString.
Proof.
  destruct (notes_provenance "Yes" "about 2" "4ish" [] notes_record []
              (Ok (FloatNote_ (Fin 2) "about 2")) (Ok (FloatNote_ (Fin 4) "4ish"))
              ltac:(reflexivity) ltac:(reflexivity) ltac:(reflexivity)) as [H1 H2].
  split; [exact H1|]. apply H2. left. split; [reflexivity|discriminate].
Defined.

Lemma strict_parse_no_note_witness :
  best_effort_parse_float "1e1" = Ret (Ok (Float (Fin 10))).
Proof. exact (proj1 (strict_parse_no_note "1e1" (Fin 10) ltac:(reflexivity))). Defined.

Lemma parse_bool_strict_witness :
  Fruit_from_iter ["maybe"; "3"; "4"] = Ret (Err "malformed bool: maybe") /\
  ingest [["t"; "id"; "x"; "maybe"; "3"; "4"]] = Panic.
Proof.
  destruct (parse_bool_strict "maybe") as (_ & _ & H).
  destruct (H ltac:(discriminate) ltac:(discriminate)) as (_ & Hf & _ & Hi).
  split; [apply Hf|].
  exact (Hi [] ["t"; "id"; "x"] ["3"; "4"] [] ltac:(reflexivity)).
Defined.

Lemma massage_idempotent_in_scale_witness :
  in_scale (Fin 5) /\
  massage (massage (mkFruit true (Some (Fin 7)) None EmptyString)) =
  massage (mkFruit true (Some (Fin 7)) None EmptyString).
Proof.
  destruct (massage_idempotent_in_scale (mkFruit true (Some (Fin 7)) None EmptyString))
    as (Hi & He & _).
  split; [|exact Hi].
  destruct (He (Fin 5) ltac:(reflexivity)) as [S|[E _]]; [exact S|discriminate].
Defined.

(** ** Further properties of the row parser and of [main] *)

Lemma Fruit_from_iter_takes_three (iter : list string) (fr : Fruit) (rest : list string) :
  Fruit_from_iter iter = Ret (Ok (fr, rest)) ->
  exists b e d, iter = b :: e :: d :: rest.
Proof.
  intros H. destruct (Fruit_from_iter_ok _ _ _ H) as (b & e & d & _ & _ & _ & Hc & _).
  eauto.
Qed.

Lemma fruits_from_iter_shape (names iter : list string) (fs : Response)
    (rest : list string) :
  fruits_from_iter names iter = Ret (Ok (fs, rest)) ->
  List.length fs = List.length names /\
  exists consumed, iter = (consumed ++ rest)%list /\
                   List.length consumed = (3 * List.length names)%nat.
Proof.
  revert iter fs. induction names as [|n names IH]; intros iter fs H; simpl in H.
  - injection H as <- <-. split; [reflexivity|]. exists []. auto.
  - destruct (Fruit_from_iter iter) as [[[f iter']|e]|] eqn:E; simpl in H;
      try discriminate.
    destruct (fruits_from_iter names iter') as [[[fs' iter'']|e]|] eqn:E';
      simpl in H; try discriminate.
    injection H as <- ->.
    destruct (IH _ _ E') as [Hl (c & -> & Hc)].
    destruct (Fruit_from_iter_takes_three _ _ _ E) as (b & e & d & ->).
    split; [simpl; congruence|].
    exists (b :: e :: d :: c). split; [reflexivity|]. simpl. lia.
Qed.

(** X1: a row that parses yields one [Fruit] per field (twenty) and reads
    exactly three cells per fruit, so at least sixty cells. *)
Theorem Response_from_iter_shape (iter : list string) (r : Response) :
  Response_from_iter iter = Ret (Ok r) ->
  List.length r = 20%nat /\ (60 <= List.length iter)%nat.
Proof.
  unfold Response_from_iter. intros H.
  destruct (fruits_from_iter fruit_names iter) as [[[fs rest]|e]|] eqn:E;
    simpl in H; try discriminate.
  injection H as <-.
  destruct (fruits_from_iter_shape _ _ _ _ E) as [Hl (c & -> & Hc)].
  split; [exact Hl|]. rewrite length_app, Hc. simpl. lia.
Qed.

Lemma Response_from_iter_shape_witness :
  exists r, Response_from_iter (List.concat (repeat ["Yes"; "2"; "3"] 20%nat)) = Ret (Ok r) /\
            List.length r = 20%nat.
Proof.
  eexists. split; [reflexivity|].
  match goal with
  | |- List.length ?r = _ =>
      exact (proj1 (Response_from_iter_shape
                      (List.concat (repeat ["Yes"; "2"; "3"] 20%nat)) r
                      ltac:(reflexivity)))
  end.
Defined.

Lemma Fruit_from_iter_tail (b e d : string) (rest : list string) :
  Fruit_from_iter (b :: e :: d :: rest) =
  (r <- Fruit_from_iter [b; e; d] ;;
   Ret (match r with Ok (f, _) => Ok (f, rest) | Err m => Err m end)).
Proof.
  unfold Fruit_from_iter. destruct (parse_bool b); [|reflexivity].
  destruct (best_effort_parse_float e) as [r1|]; [|reflexivity]. simpl.
  destruct (best_effort_parse_float d) as [r2|];
    destruct r1 as [[]|]; try destruct r2 as [[]|]; reflexivity.
Qed.

(** the rest of the cells after a successful parse, extended by [extra] *)
Definition extend_rest {A} (extra : list string)
    (m : prog (result (A * list string) string))
  : prog (result (A * list string) string) :=
  r <- m ;;
  Ret (match r with Ok (x, rest) => Ok (x, (rest ++ extra)%list) | Err e => Err e end).

Lemma fruits_from_iter_cons (n : string) (names iter : list string) :
  fruits_from_iter (n :: names) iter =
  (r <- Fruit_from_iter iter ;;
   match r with
   | Err e => Ret (Err e)
   | Ok (f, iter') =>
       rs <- fruits_from_iter names iter' ;;
       match rs with
       | Err e => Ret (Err e)
       | Ok (fs, iter'') => Ret (Ok (f :: fs, iter''))
       end
   end).
Proof. reflexivity. Qed.

Lemma fruits_from_iter_app (names cells extra : list string) :
  (3 * List.length names <= List.length cells)%nat ->
  fruits_from_iter names (cells ++ extra)%list =
  extend_rest extra (fruits_from_iter names cells).
Proof.
  revert cells. induction names as [|n names IH]; intros cells Hl; [reflexivity|].
  destruct cells as [|b [|e [|d cells]]]; simpl in Hl; try lia.
  rewrite !fruits_from_iter_cons. cbn [app].
  rewrite (Fruit_from_iter_tail b e d (cells ++ extra)), (Fruit_from_iter_tail b e d cells).
  destruct (Fruit_from_iter [b; e; d]) as [[[f r0]|m]|]; simpl; try reflexivity.
  rewrite IH by lia.
  destruct (fruits_from_iter names cells) as [[[fs r]|m]|]; reflexivity.
Qed.

(** X2: cells after the sixtieth are never looked at: a row's parse (its
    result, its error or its panic) is decided by its first sixty cells. *)
Theorem Response_from_iter_ignores_extra (cells extra : list string) :
  List.length cells = 60%nat ->
  Response_from_iter (cells ++ extra)%list = Response_from_iter cells.
Proof.
  intros Hl. unfold Response_from_iter.
  rewrite fruits_from_iter_app by (simpl; lia).
  destruct (fruits_from_iter fruit_names cells) as [[[fs r]|m]|]; reflexivity.
Qed.

Lemma Response_from_iter_ignores_extra_witness :
  Response_from_iter (List.concat (repeat ["No"; "4"; "fresh"] 20%nat) ++ ["x"; "maybe"])%list =
  Response_from_iter (List.concat (repeat ["No"; "4"; "fresh"] 20%nat)).
Proof. apply Response_from_iter_ignores_extra. reflexivity. Defined.

(** X3: a fruit whose cells run out fails with "end of row": after a valid
    flag, with no further cell, or with one rating cell that does not
    panic. *)
Theorem Fruit_from_iter_end_of_row (b e : string) (wt : bool)
    (r : result FloatNote string) :
  parse_bool b = Ok wt -> best_effort_parse_float e = Ret r ->
  Fruit_from_iter [] = Ret (Err "end of row") /\
  Fruit_from_iter [b] = Ret (Err "end of row") /\
  Fruit_from_iter [b; e] = Ret (Err "end of row").
Proof.
  intros Hb He. unfold Fruit_from_iter. rewrite Hb, He.
  repeat split; simpl; destruct r as [[]|]; reflexivity.
Qed.

Lemma Fruit_from_iter_end_of_row_witness :
  Fruit_from_iter ["Yes"; "about 2"] = Ret (Err "end of row").
Proof.
  exact (proj2 (proj2 (Fruit_from_iter_end_of_row "Yes" "about 2" true _
                          ltac:(reflexivity) ltac:(reflexivity)))).
Defined.

Lemma collect_responses_ok (records : list (list string)) (rs : list Response) :
  collect_responses records = Ret (Ok rs) <->
  Forall2 (fun row r => Response_from_iter (skipn 3 row) = Ret (Ok r)) records rs.
Proof.
  revert rs. induction records as [|row records IH]; intros rs.
  - simpl. split; intros H.
    + injection H as <-. constructor.
    + inversion H; reflexivity.
  - rewrite collect_responses_cons. split; intros H.
    + destruct (Response_from_iter (skipn 3 row)) as [[r|m]|] eqn:E;
        simpl in H; try discriminate.
      destruct (collect_responses records) as [[rs'|m]|] eqn:E';
        simpl in H; try discriminate.
      injection H as <-. constructor; [exact E|]. apply IH. reflexivity.
    + inversion H as [|row' r records' rs' Hr Hrs]; subst.
      rewrite Hr. simpl. apply IH in Hrs. rewrite Hrs. reflexivity.
Qed.

(** X4: ingestion returns [responses] exactly when every record, its first
    three cells skipped, parses to the response at the same position; a
    single failing record leaves no partial result. *)
Theorem ingest_all_or_nothing (records : list (list string)) (responses : list Response) :
  ingest records = Ret responses <->
  Forall2 (fun row r => Response_from_iter (skipn 3 row) = Ret (Ok r)) records responses.
Proof.
  rewrite <- collect_responses_ok. unfold ingest.
  destruct (collect_responses records) as [[rs|m]|]; simpl; split; intros H; congruence.
Qed.

(** *** What the embedded-number pattern matches *)

Fixpoint all_class (k : class) (s : string) : bool :=
  match s with
  | EmptyString => true
  | String c s' => class_matches k c && all_class k s'
  end.

Fixpoint has_char (c : ascii) (s : string) : bool :=
  match s with
  | EmptyString => false
  | String d s' => Ascii.eqb d c || has_char c s'
  end.

(** the strings a pattern denotes *)
Fixpoint items_match (p : list item) (m : string) : Prop :=
  match p with
  | [] => m = EmptyString
  | Opt k :: p' =>
      items_match p' m \/
      exists c m', m = String c m' /\ class_matches k c = true /\ items_match p' m'
  | Star k :: p' =>
      exists a b, m = a ++ b /\ all_class k a = true /\ items_match p' b
  | Plus k :: p' =>
      exists c a b, m = String c (a ++ b) /\ class_matches k c = true /\
                    all_class k a = true /\ items_match p' b
  end.

Lemma match_star_sound (k : class) (cont : string -> option string) (P : string -> Prop) :
  (forall s r, cont s = Some r -> exists m, s = m ++ r /\ P m) ->
  forall s r, match_star k cont s = Some r ->
  exists a m, s = a ++ m ++ r /\ all_class k a = true /\ P m.
Proof.
  intros Hc s. induction s as [|c s IH]; intros r H; simpl in H.
  - destruct (Hc _ _ H) as (m & E & Pm). exists EmptyString, m. auto.
  - destruct (class_matches k c) eqn:Ek.
    + destruct (match_star k cont s) as [r'|] eqn:Es.
      * injection H as <-. destruct (IH _ eq_refl) as (a & m & -> & Ha & Pm).
        exists (String c a), m. simpl. rewrite Ek, Ha. auto.
      * destruct (Hc _ _ H) as (m & E & Pm). exists EmptyString, m. auto.
    + destruct (Hc _ _ H) as (m & E & Pm). exists EmptyString, m. auto.
Qed.

Lemma match_items_sound (p : list item) :
  forall s r, match_items p s = Some r -> exists m, s = m ++ r /\ items_match p m.
Proof.
  induction p as [|[k|k|k] p IH]; intros s r H; simpl in H.
  - injection H as <-. exists EmptyString. simpl. auto.
  - destruct s as [|c s].
    + destruct (IH _ _ H) as (m & E & Pm). exists m. simpl. auto.
    + destruct (class_matches k c) eqn:Ek.
      * destruct (match_items p s) as [r'|] eqn:Es.
        -- injection H as <-. destruct (IH _ _ Es) as (m & -> & Pm).
           exists (String c m). split; [reflexivity|]. simpl. right. eauto.
        -- destruct (IH _ _ H) as (m & E & Pm). exists m. simpl. auto.
      * destruct (IH _ _ H) as (m & E & Pm). exists m. simpl. auto.
  - destruct (match_star_sound k (match_items p) (items_match p) IH s r H)
      as (a & m & -> & Ha & Pm).
    exists (a ++ m). rewrite string_app_assoc. split; [reflexivity|]. simpl. eauto.
  - destruct s as [|c s]; [discriminate|].
    destruct (class_matches k c) eqn:Ek; [|discriminate].
    destruct (match_star_sound k (match_items p) (items_match p) IH s r H)
      as (a & m & -> & Ha & Pm).
    exists (String c (a ++ m)). rewrite string_app_assoc. split; [reflexivity|].
    simpl. eauto 10.
Qed.

Lemma string_length_app (a b : string) :
  String.length (a ++ b) = (String.length a + String.length b)%nat.
Proof. induction a; simpl; congruence. Qed.

Lemma take_app (a b : string) : take (String.length a) (a ++ b) = a.
Proof. induction a; simpl; [destruct b|]; congruence. Qed.

Lemma match_items_take (p : list item) (s r : string) :
  match_items p s = Some r -> items_match p (take (String.length s - String.length r) s).
Proof.
  intros E. destruct (match_items_sound _ _ _ E) as (m & -> & Pm).
  rewrite string_length_app, Nat.add_sub, take_app. exact Pm.
Qed.

Lemma find_sound (p : list item) (s m : string) :
  find p s = Some m -> items_match p m.
Proof.
  induction s as [|c s IH]; intros H.
  - unfold find in H. destruct (match_items p "") as [r|] eqn:E; [|discriminate].
    injection H as <-. exact (match_items_take _ _ _ E).
  - unfold find in H; fold (find p s) in H.
    destruct (match_items p (String c s)) as [r|] eqn:E; [|exact (IH H)].
    injection H as <-. exact (match_items_take _ _ _ E).
Qed.

(** *** The float parser on a match of the pattern *)

Lemma digit_facts (c : ascii) : is_digit c = true ->
  ascii_to_lower c = c /\ Ascii.eqb c "-" = false /\ Ascii.eqb c "+" = false /\
  Ascii.eqb c "i" = false /\ Ascii.eqb c "n" = false /\
  Ascii.eqb c "." = false /\ Ascii.eqb c "," = false /\
  Ascii.eqb c "e" = false /\ Ascii.eqb c "E" = false.
Proof.
  intros H. unfold is_digit in H. apply andb_true_iff in H as [H1 H2].
  apply Nat.leb_le in H1. apply Nat.leb_le in H2.
  unfold ascii_to_lower.
  assert (L : ((65 <=? nat_of_ascii c) && (nat_of_ascii c <=? 90))%nat = false).
  { apply andb_false_iff. left. apply Nat.leb_gt. lia. }
  rewrite L.
  repeat split;
  match goal with
  | |- Ascii.eqb c ?d = false =>
      destruct (Ascii.eqb_spec c d) as [->|]; [vm_compute in H1, H2; lia | reflexivity]
  end.
Qed.

Lemma all_digits_app (a b : string) :
  all_class Digit (a ++ b) = all_class Digit a && all_class Digit b.
Proof. induction a as [|c a IH]; simpl; [reflexivity|]. rewrite IH. apply andb_assoc. Qed.

Lemma span_digits_app (d x : string) :
  all_class Digit d = true ->
  span_digits (d ++ x) = (d ++ fst (span_digits x), snd (span_digits x)).
Proof.
  induction d as [|c d IH]; intros H; simpl in *.
  - destruct (span_digits x); reflexivity.
  - apply andb_true_iff in H as [Hc Hd]. rewrite Hc, IH by exact Hd. reflexivity.
Qed.

Lemma span_digits_all (d : string) :
  all_class Digit d = true -> span_digits d = (d, EmptyString).
Proof.
  intros H. rewrite <- (string_app_nil_r d) at 1. rewrite span_digits_app by exact H.
  simpl. rewrite string_app_nil_r. reflexivity.
Qed.

Lemma parse_number_shape (d1 dt cm d2 : string) :
  all_class Digit d1 = true -> (dt = EmptyString \/ dt = ".") ->
  (cm = EmptyString \/ cm = ",") -> all_class Digit d2 = true -> d2 <> EmptyString ->
  (cm = EmptyString -> exists q, parse_number (d1 ++ dt ++ cm ++ d2) = Some q) /\
  (cm = "," -> parse_number (d1 ++ dt ++ cm ++ d2) = None).
Proof.
  intros H1 Hdt Hcm H2 Hne.
  destruct d2 as [|c2 d2']; [contradiction|].
  assert (Hc2 : is_digit c2 = true) by (simpl in H2; apply andb_true_iff in H2; tauto).
  assert (H2' : all_class Digit d2' = true) by (simpl in H2; apply andb_true_iff in H2; tauto).
  destruct (digit_facts c2 Hc2) as (_ & _ & _ & _ & _ & Dot & Com & _).
  destruct Hdt as [->| ->], Hcm as [->| ->]; split; intros E; try discriminate;
    simpl; unfold parse_number.
  - rewrite span_digits_all by (rewrite all_digits_app, H1; exact H2).
    rewrite string_length_app. simpl. rewrite Nat.add_0_r, Nat.add_succ_r. simpl.
    eexists. reflexivity.
  - rewrite span_digits_app by exact H1. simpl.
    destruct (span_digits d2') as [a b]. simpl.
    match goal with |- (if ?b then _ else _) = _ => destruct b end; reflexivity.
  - rewrite span_digits_app by exact H1. simpl.
    rewrite Hc2, span_digits_all by exact H2'. simpl.
    rewrite Nat.add_succ_r. simpl. eexists. reflexivity.
  - rewrite span_digits_app by exact H1. simpl.
    match goal with |- (if ?b then _ else _) = _ => destruct b end; reflexivity.
Qed.

Lemma opt_lit_shape (d : ascii) (P : string -> Prop) (m : string) :
  (P m \/ exists c m', m = String c m' /\ Ascii.eqb c d = true /\ P m') ->
  exists x m', m = x ++ m' /\ (x = EmptyString \/ x = String d EmptyString) /\ P m'.
Proof.
  intros [H | (c & m' & -> & E & H)].
  - exists EmptyString, m. auto.
  - apply Ascii.eqb_eq in E. subst c. exists (String d EmptyString), m'. auto.
Qed.

Lemma regex_match_shape (m : string) :
  items_match REGEX m ->
  exists sg d1 dt cm d2, m = sg ++ d1 ++ dt ++ cm ++ d2 /\
    (sg = EmptyString \/ sg = "-") /\ all_class Digit d1 = true /\
    (dt = EmptyString \/ dt = ".") /\ (cm = EmptyString \/ cm = ",") /\
    all_class Digit d2 = true /\ d2 <> EmptyString.
Proof.
  intros H.
  destruct (opt_lit_shape "-" (items_match [Star Digit; Opt (Lit "."); Opt (Lit ","); Plus Digit]) m H)
    as (sg & m1 & -> & Hsg & H1).
  destruct H1 as (d1 & m2 & -> & Hd1 & H2).
  destruct (opt_lit_shape "." (items_match [Opt (Lit ","); Plus Digit]) m2 H2)
    as (dt & m3 & -> & Hdt & H3).
  destruct (opt_lit_shape "," (items_match [Plus Digit]) m3 H3)
    as (cm & m4 & -> & Hcm & H4).
  destruct H4 as (c & a & b & -> & Hc & Ha & Hb). simpl in Hb. subst b.
  exists sg, d1, dt, cm, (String c (a ++ EmptyString)).
  repeat split; auto; [| discriminate].
  simpl in Hc |- *. rewrite Hc, string_app_nil_r, Ha. reflexivity.
Qed.

Lemma has_char_app (c : ascii) (a b : string) :
  has_char c (a ++ b) = has_char c a || has_char c b.
Proof. induction a as [|d a IH]; simpl; [reflexivity|]. rewrite IH. apply orb_assoc. Qed.

Lemma has_char_digits (d : string) :
  all_class Digit d = true -> has_char ","%char d = false.
Proof.
  induction d as [|c d IH]; intros H; simpl in *; [reflexivity|].
  apply andb_true_iff in H as [Hc Hd].
  destruct (digit_facts c Hc) as (_ & _ & _ & _ & _ & _ & -> & _). simpl. auto.
Qed.

Lemma body_first (d1 dt cm d2 : string) :
  all_class Digit d1 = true -> (dt = EmptyString \/ dt = ".") ->
  (cm = EmptyString \/ cm = ",") -> all_class Digit d2 = true -> d2 <> EmptyString ->
  exists c s', d1 ++ dt ++ cm ++ d2 = String c s' /\ ascii_to_lower c = c /\
    Ascii.eqb c "-" = false /\ Ascii.eqb c "+" = false /\
    Ascii.eqb c "i" = false /\ Ascii.eqb c "n" = false.
Proof.
  intros H1 Hdt Hcm H2 Hne.
  destruct d1 as [|c d1].
  - destruct Hdt as [->| ->]; [|eexists _, _; split; [reflexivity|]; repeat split; reflexivity].
    destruct Hcm as [->| ->]; [|eexists _, _; split; [reflexivity|]; repeat split; reflexivity].
    destruct d2 as [|c d2]; [contradiction|]. simpl in H2. apply andb_true_iff in H2 as [Hc _].
    destruct (digit_facts c Hc) as (L & M & P & I & N & _).
    exists c, d2. repeat split; auto.
  - simpl in H1. apply andb_true_iff in H1 as [Hc _].
    destruct (digit_facts c Hc) as (L & M & P & I & N & _).
    eexists c, _. split; [reflexivity|]. repeat split; auto.
Qed.

Lemma parse_f64_match (m : string) :
  items_match REGEX m ->
  (has_char ","%char m = true /\ parse_f64 m = None) \/
  (has_char ","%char m = false /\ exists q, parse_f64 m = Some (Fin q)).
Proof.
  intros H.
  destruct (regex_match_shape m H)
    as (sg & d1 & dt & cm & d2 & -> & Hsg & H1 & Hdt & Hcm & H2 & Hne).
  destruct (body_first d1 dt cm d2 H1 Hdt Hcm H2 Hne) as (c & s' & Eb & L & M & P & I & N).
  destruct (parse_number_shape d1 dt cm d2 H1 Hdt Hcm H2 Hne) as [Ok Bad].
  assert (Hp : parse_f64 (sg ++ d1 ++ dt ++ cm ++ d2) =
               option_map (fun q => Fin (if String.eqb sg "-" then Qred (- q) else q))
                          (parse_number (d1 ++ dt ++ cm ++ d2))).
  { unfold parse_f64.
    assert (Hs : parse_sign (sg ++ d1 ++ dt ++ cm ++ d2) =
                 (String.eqb sg "-", d1 ++ dt ++ cm ++ d2)).
    { destruct Hsg as [->| ->]; [|reflexivity].
      simpl. rewrite Eb. simpl. rewrite M, P. reflexivity. }
    rewrite Hs. cbv zeta. rewrite Eb. simpl. rewrite L, I, N. reflexivity. }
  rewrite Hp, !has_char_app, (has_char_digits d1 H1), (has_char_digits d2 H2).
  assert (Hsg' : has_char ","%char sg = false) by (destruct Hsg as [->| ->]; reflexivity).
  assert (Hdt' : has_char ","%char dt = false) by (destruct Hdt as [->| ->]; reflexivity).
  rewrite Hsg', Hdt'. simpl.
  destruct Hcm as [Ec|Ec].
  - right. destruct (Ok Ec) as [q Eq]. rewrite Eq, Ec. split; [reflexivity|]. eexists. reflexivity.
  - left. rewrite (Bad Ec), Ec. split; reflexivity.
Qed.

Lemma match_star_some (k : class) (cont : string -> option string) (s : string) :
  cont s <> None -> match_star k cont s <> None.
Proof.
  induction s as [|c s IH]; intros H; simpl; [exact H|].
  destruct (class_matches k c); [|exact H].
  destruct (match_star k cont s); [discriminate | exact H].
Qed.

Lemma match_items_opt_skip (k : class) (p : list item) (c : ascii) (s : string) :
  class_matches k c = false ->
  match_items (Opt k :: p) (String c s) = match_items p (String c s).
Proof. intros H. simpl. rewrite H. reflexivity. Qed.

Lemma match_items_star (k : class) (p : list item) (s : string) :
  match_items (Star k :: p) s = match_star k (match_items p) s.
Proof. reflexivity. Qed.

Lemma match_items_plus (k : class) (p : list item) (c : ascii) (s : string) :
  class_matches k c = true ->
  match_items (Plus k :: p) (String c s) = match_star k (match_items p) s.
Proof. intros H. simpl. rewrite H. reflexivity. Qed.

Lemma match_items_regex_digit (c : ascii) (s : string) :
  is_digit c = true -> match_items REGEX (String c s) <> None.
Proof.
  intros Hc. destruct (digit_facts c Hc) as (_ & M & _ & _ & _ & D & C & _).
  unfold REGEX. rewrite match_items_opt_skip by exact M.
  rewrite match_items_star. apply match_star_some.
  rewrite !match_items_opt_skip by assumption.
  rewrite match_items_plus by exact Hc.
  apply match_star_some. discriminate.
Qed.

Lemma find_regex_digit (s : string) (c : ascii) :
  has_char c s = true -> is_digit c = true -> find REGEX s <> None.
Proof.
  induction s as [|d s IH]; intros Hs Hc; simpl in Hs; [discriminate|].
  unfold find; fold (find REGEX s).
  destruct (Ascii.eqb_spec d c) as [->|Ne].
  - destruct (match_items REGEX (String c s)) eqn:E; [discriminate|].
    exfalso. exact (match_items_regex_digit c s Hc E).
  - simpl in Hs. destruct (match_items REGEX (String d s)); [discriminate|].
    exact (IH Hs Hc).
Qed.

(** X5: [best_effort_parse_float] panics exactly when the text has no
    strict parse and the first match of the embedded-number pattern contains
    a comma; for every other text it returns one of its three outcomes. *)
Theorem best_effort_panics_iff_comma (s : string) :
  best_effort_parse_float s = Panic <->
  parse_f64 s = None /\
  exists m, find REGEX s = Some m /\ has_char ","%char m = true.
Proof.
  unfold best_effort_parse_float.
  destruct (parse_f64 s) as [v|]; [split; [discriminate|intros [H _]; discriminate]|].
  destruct (find REGEX s) as [m|] eqn:F.
  - destruct (parse_f64_match m (find_sound _ _ _ F)) as [[Hc Hp]|[Hc [q Hp]]];
      rewrite Hp; simpl; split.
    + intros _. split; [reflexivity|]. eauto.
    + intros _. reflexivity.
    + discriminate.
    + intros [_ (m' & E & Hm)]. injection E as <-. congruence.
  - split; [discriminate|]. intros [_ (m' & E & _)]. discriminate.
Qed.


(** X7: total failure (outcome (c)) happens only for text without any
    digit; the failure carries the whole cell text. *)
Theorem total_failure_has_no_digit (s n : string) :
  best_effort_parse_float s = Ret (Err n) ->
  n = s /\ forall c, has_char c s = true -> is_digit c = false.
Proof.
  intros H. split; [exact (proj2 (best_effort_note_is_input s n NaN) H)|].
  intros c Hs. destruct (is_digit c) eqn:Hc; [|reflexivity].
  exfalso. unfold best_effort_parse_float in H.
  destruct (parse_f64 s); [discriminate|].
  destruct (find REGEX s) eqn:F.
  - destruct (parse_f64 s0); discriminate.
  - exact (find_regex_digit s c Hs Hc F).
Qed.


Lemma total_failure_has_no_digit_witness :
  is_digit "s"%char = false.
Proof.
  exact (proj2 (total_failure_has_no_digit "unsure" "unsure" ltac:(reflexivity))
               "s"%char ltac:(reflexivity)).
Defined.

(** *** Aggregation: averages, columns and the outputs of [main] *)

Lemma avg_step_nan_acc (p : f64 * nat) : avg_step NaN p = NaN.
Proof. destruct p as [e i]. simpl. destruct e; reflexivity. Qed.

Lemma avg_step_nan_val (s : f64) (i : nat) : avg_step s (NaN, i) = NaN.
Proof. reflexivity. Qed.

Lemma fold_avg_nan (l : list (f64 * nat)) : fold_left avg_step l NaN = NaN.
Proof. induction l as [|p l IH]; simpl; [reflexivity|]. rewrite avg_step_nan_acc. exact IH. Qed.

Lemma fold_avg_in_nan (vs : list f64) (i : nat) (s : f64) :
  In NaN vs -> fold_left avg_step (zip_from i vs) s = NaN.
Proof.
  revert i s. induction vs as [|v vs IH]; intros i s H; [destruct H|].
  cbn [zip_from fold_left]. destruct H as [->|H].
  - rewrite avg_step_nan_val. apply fold_avg_nan.
  - apply IH. exact H.
Qed.

(** X9: one NaN among the present ratings makes the running average NaN,
    whatever comes before or after it: NaN propagates through every later
    update. *)
Theorem running_average_nan (vs : list f64) :
  In NaN vs -> running_average vs = NaN.
Proof. intros H. apply fold_avg_in_nan. exact H. Qed.

Lemma running_average_nan_witness :
  In NaN [Fin 3; NaN; Fin 4] /\ running_average [Fin 3; NaN; Fin 4] = NaN.
Proof. split; [simpl; auto | apply running_average_nan; simpl; auto]. Defined.

Lemma filter_map_map_massage_expected (fs : list Fruit) :
  filter_map expected_rancidness (map massage fs) =
  map clamp_rating (filter_map expected_rancidness fs).
Proof.
  induction fs as [|f fs IH]; [reflexivity|]. simpl.
  destruct (expected_rancidness f); simpl; rewrite IH; reflexivity.
Qed.

Lemma filter_map_map_massage_desired (fs : list Fruit) :
  filter_map desired_rancidness (map massage fs) =
  map clamp_rating (filter_map desired_rancidness fs).
Proof.
  induction fs as [|f fs IH]; [reflexivity|]. simpl.
  destruct (desired_rancidness f); simpl; rewrite IH; reflexivity.
Qed.

Lemma filter_map_map_massage_throw (g : bool -> option unit) (fs : list Fruit) :
  filter_map (fun f => g f.(would_throw)) (map massage fs) =
  filter_map (fun f => g f.(would_throw)) fs.
Proof.
  induction fs as [|f fs IH]; [reflexivity|]. simpl. rewrite IH. reflexivity.
Qed.

(** X10: [report] on massaged fruits has the same throw / no-throw counts as
    on the raw fruits, and its averages are the running averages of the raw
    present ratings each clamped to [[1, 5]]. *)
Theorem report_massage (fs : list Fruit) :
  report (map massage fs) =
  let '(t, n, _, _) := report fs in
  (t, n, running_average (map clamp_rating (filter_map expected_rancidness fs)),
         running_average (map clamp_rating (filter_map desired_rancidness fs))).
Proof.
  unfold report.
  rewrite (filter_map_map_massage_throw (fun b => if b then Some tt else None)).
  rewrite (filter_map_map_massage_throw (fun b => if negb b then Some tt else None)).
  rewrite filter_map_map_massage_expected, filter_map_map_massage_desired.
  reflexivity.
Qed.

Definition Qsum (qs : list Q) : Q := fold_right Qplus 0%Q qs.

Lemma Qsum_app (a b : list Q) : (Qsum (a ++ b) == Qsum a + Qsum b)%Q.
Proof.
  induction a as [|q a IH]; simpl.
  - ring.
  - unfold Qsum in *. simpl. rewrite IH. ring.
Qed.

Lemma running_average_Fin_sum (qs : list Q) :
  exists t, running_average (map Fin qs) = Fin t /\
            (t * (Z.of_nat (List.length qs) # 1) == Qsum qs)%Q.
Proof.
  induction qs as [|q qs IH] using rev_ind.
  - exists 0%Q. split; reflexivity.
  - destruct IH as (t & Ht & Et).
    rewrite map_app. simpl map. rewrite running_average_snoc, Ht, length_map.
    set (n := List.length qs).
    assert (Hz : Q_zero (Z.of_nat (S n) # 1) = false).
    { unfold Q_zero. destruct (Qeq_bool _ _) eqn:E; [|reflexivity].
      apply Qeq_bool_iff in E. unfold Qeq in E. simpl in E. lia. }
    unfold f64_mul, f64_add, f64_div, f64_of_nat. rewrite Hz.
    eexists. split; [reflexivity|].
    rewrite length_app. simpl List.length. rewrite Nat.add_1_r. fold n.
    rewrite Qsum_app, !Qred_correct, <- Et.
    unfold Qsum; simpl fold_right.
    change (Datatypes.length qs) with n.
    assert (N1 : ~ ((Z.of_nat (S n) # 1) == 0)%Q) by (unfold Qeq; simpl; lia).
    set (M := (Z.of_nat (S n) # 1)) in *. set (N := (Z.of_nat n # 1)).
    field. exact N1.
Qed.


Lemma Qsum_bounds (qs : list Q) :
  Forall (fun q => 1 <= q <= 5)%Q qs ->
  ((Z.of_nat (List.length qs) # 1) <= Qsum qs <= 5 * (Z.of_nat (List.length qs) # 1))%Q.
Proof.
  induction 1 as [|q qs [L U] _ [IL IU]]; [split; unfold Qle; simpl; lia|].
  unfold Qsum; simpl fold_right; fold (Qsum qs).
  cbn [List.length].
  assert (E : ((Z.of_nat (S (List.length qs)) # 1) == 1 + (Z.of_nat (List.length qs) # 1))%Q).
  { unfold Qeq, Qplus; cbn [Qnum Qden]. rewrite Nat2Z.inj_succ. lia. }
  rewrite E. split.
  - apply Qplus_le_compat; assumption.
  - setoid_replace (5 * (1 + (Z.of_nat (List.length qs) # 1)))%Q
      with (5 + 5 * (Z.of_nat (List.length qs) # 1))%Q by ring.
    apply Qplus_le_compat; assumption.
Qed.

Lemma Forall_in_scale (ws : list f64) :
  Forall in_scale ws ->
  exists qs, ws = map Fin qs /\ Forall (fun q => 1 <= q <= 5)%Q qs.
Proof.
  induction 1 as [|w ws (q & -> & R) _ (qs & -> & F)].
  - exists []. split; [reflexivity | constructor].
  - exists (q :: qs). split; [reflexivity | constructor; assumption].
Qed.

Lemma running_average_in_scale (ws : list f64) :
  ws <> [] -> Forall in_scale ws -> in_scale (running_average ws).
Proof.
  intros Hne HF. destruct (Forall_in_scale ws HF) as (qs & -> & F).
  destruct (running_average_Fin_sum qs) as (t & -> & Et).
  destruct (Qsum_bounds qs F) as [L U].
  assert (P : (0 < (Z.of_nat (List.length qs) # 1))%Q).
  { destruct qs; [contradiction Hne; reflexivity|]. unfold Qlt; simpl; lia. }
  exists t. split; [reflexivity|]. rewrite <- Et in L, U. split.
  - apply (Qmult_le_r _ _ _ P). rewrite Qmult_1_l. exact L.
  - apply (Qmult_le_r _ _ _ P). exact U.
Qed.

Lemma clamp_rating_all_in_scale (vs : list f64) :
  ~ In NaN vs -> Forall in_scale (map clamp_rating vs).
Proof.
  induction vs as [|v vs IH]; intros H; constructor.
  - destruct (clamp_rating_range v) as [[E _]|[_ S]]; [|exact S].
    exfalso. apply H. left. exact E.
  - apply IH. intros I. apply H. right. exact I.
Qed.

Lemma massaged_average (vs : list f64) :
  ~ In NaN vs ->
  (vs = [] /\ running_average (map clamp_rating vs) = Fin 0) \/
  (vs <> [] /\ in_scale (running_average (map clamp_rating vs))).
Proof.
  intros H. destruct vs as [|v vs'] eqn:E; [left; split; reflexivity|].
  right. split; [discriminate|]. rewrite <- E.
  apply running_average_in_scale.
  - rewrite E. discriminate.
  - apply clamp_rating_all_in_scale. rewrite E. exact H.
Qed.

Lemma filter_map_not_in (g : Fruit -> option f64) (fs : list Fruit) :
  (forall f, In f fs -> g f <> Some NaN) -> ~ In NaN (filter_map g fs).
Proof.
  induction fs as [|f fs IH]; intros H; simpl; [tauto|].
  destruct (g f) eqn:E.
  - intros [E'|I].
    + subst. apply (H f); [left; reflexivity | exact E].
    + apply IH; [intros f' I'; apply H; right; exact I' | exact I].
  - apply IH. intros f' I'. apply H. right. exact I'.
Qed.

(** X11: when no fruit has a NaN rating, each average of [report] on the
    massaged fruits is [0] if the fruits have no rating of that kind and
    otherwise lies on the scale [[1, 5]] (exact arithmetic). *)
Theorem report_massaged_averages_in_scale (fs : list Fruit) :
  (forall f, In f fs -> expected_rancidness f <> Some NaN /\ desired_rancidness f <> Some NaN) ->
  let '(_, _, ae, ad) := report (map massage fs) in
  ((filter_map expected_rancidness fs = [] /\ ae = Fin 0) \/
   (filter_map expected_rancidness fs <> [] /\ in_scale ae)) /\
  ((filter_map desired_rancidness fs = [] /\ ad = Fin 0) \/
   (filter_map desired_rancidness fs <> [] /\ in_scale ad)).
Proof.
  intros H. unfold report.
  rewrite filter_map_map_massage_expected, filter_map_map_massage_desired.
  split; apply massaged_average, filter_map_not_in; intros f I; apply (H f I).
Qed.

Lemma report_massaged_averages_in_scale_witness :
  let fs := [mkFruit true (Some (Fin 7)) None EmptyString;
             mkFruit false (Some (Inf true)) (Some (Fin 2)) EmptyString] in
  (forall f, In f fs -> expected_rancidness f <> Some NaN /\ desired_rancidness f <> Some NaN) /\
  (let '(_, _, ae, ad) := report (map massage fs) in
  ((filter_map expected_rancidness fs = [] /\ ae = Fin 0) \/
   (filter_map expected_rancidness fs <> [] /\ in_scale ae)) /\
  ((filter_map desired_rancidness fs = [] /\ ad = Fin 0) \/
   (filter_map desired_rancidness fs <> [] /\ in_scale ad))).
Proof.
  intros fs.
  assert (H : forall f, In f fs -> expected_rancidness f <> Some NaN /\ desired_rancidness f <> Some NaN).
  { intros f [<-|[<-|[]]]; split; discriminate. }
  split; [exact H | apply (report_massaged_averages_in_scale fs H)].
Defined.

Lemma push_each_length (cols : list (list Fruit)) (r : Response) :
  List.length (push_each cols r) = List.length cols.
Proof.
  revert r. induction cols as [|c cols IH]; intros [|f fs]; simpl; auto.
Qed.

Lemma push_each_nth (cols : list (list Fruit)) (r : Response) (d : Fruit) (k : nat) :
  List.length r = List.length cols -> (k < List.length cols)%nat ->
  nth k (push_each cols r) [] = (nth k cols [] ++ [nth k r d])%list.
Proof.
  revert r k. induction cols as [|c cols IH]; intros [|f fs] k Hl Hk; simpl in *; try lia.
  destruct k as [|k]; [reflexivity|]. apply IH; lia.
Qed.

Lemma fold_push_each (rs : list Response) (cols : list (list Fruit)) (d : Fruit) :
  Forall (fun r => List.length r = List.length cols) rs ->
  List.length (fold_left push_each rs cols) = List.length cols /\
  forall k, (k < List.length cols)%nat ->
    nth k (fold_left push_each rs cols) [] =
    (nth k cols [] ++ map (fun r => nth k r d) rs)%list.
Proof.
  revert cols. induction rs as [|r rs IH]; intros cols HF; simpl.
  - split; [reflexivity|]. intros k _. rewrite app_nil_r. reflexivity.
  - inversion HF as [|? ? Hr HF']; subst.
    assert (HF2 : Forall (fun x => List.length x = List.length (push_each cols r)) rs).
    { eapply Forall_impl; [|exact HF']. intros x Hx. rewrite push_each_length. exact Hx. }
    destruct (IH (push_each cols r) HF2) as [L N].
    rewrite push_each_length in L. split; [exact L|].
    intros k Hk. rewrite N by (rewrite push_each_length; exact Hk).
    rewrite (push_each_nth cols r d k Hr Hk), <- app_assoc. reflexivity.
Qed.

(** X12: [VecResponse::from_iter] transposes the responses: given responses
    of twenty fruits each, it yields twenty columns, and column [k] is the
    [k]-th fruit of every response, in response order. *)
Theorem VecResponse_from_iter_columns (rs : list Response) (d : Fruit) :
  Forall (fun r => List.length r = List.length fruit_names) rs ->
  List.length (VecResponse_from_iter rs) = List.length fruit_names /\
  forall k, (k < List.length fruit_names)%nat ->
    nth k (VecResponse_from_iter rs) [] = map (fun r => nth k r d) rs.
Proof.
  intros HF. unfold VecResponse_from_iter.
  assert (HF' : Forall (fun r => List.length r =
                  List.length (repeat ([] : list Fruit) (List.length fruit_names))) rs).
  { eapply Forall_impl; [|exact HF]. intros x Hx. rewrite repeat_length. exact Hx. }
  destruct (fold_push_each rs _ d HF') as [L N].
  rewrite repeat_length in L, N. split; [exact L|].
  intros k Hk. rewrite N by exact Hk. rewrite nth_repeat. reflexivity.
Qed.

Definition sample_fruit (b : bool) (k : nat) : Fruit :=
  mkFruit b (Some (Fin (Z.of_nat k # 1))) None EmptyString.

Lemma VecResponse_from_iter_columns_witness :
  let rs := [repeat (sample_fruit true 2) 20; repeat (sample_fruit false 4) 20] in
  Forall (fun r => List.length r = List.length fruit_names) rs /\
  List.length (VecResponse_from_iter rs) = List.length fruit_names /\
  forall k, (k < List.length fruit_names)%nat ->
    nth k (VecResponse_from_iter rs) [] =
      map (fun r => nth k r (sample_fruit true 0)) rs.
Proof.
  intros rs.
  assert (H : Forall (fun r => List.length r = List.length fruit_names) rs).
  { repeat constructor. }
  split; [exact H | apply (VecResponse_from_iter_columns rs (sample_fruit true 0) H)].
Defined.

Lemma ingest_shape (records : list (list string)) (rs : list Response) :
  ingest records = Ret rs ->
  List.length rs = List.length records /\
  Forall (fun r => List.length r = List.length fruit_names) rs.
Proof.
  unfold ingest. destruct (collect_responses records) as [[rs'|m]|] eqn:E;
    simpl; intros H; try discriminate.
  injection H as <-. apply collect_responses_ok in E.
  induction E as [|row r rows rs Hr _ [IL IF]]; [split; [reflexivity|constructor]|].
  split; [simpl; congruence|]. constructor; [|exact IF].
  unfold Response_from_iter in Hr.
  destruct (fruits_from_iter fruit_names (skipn 3 row)) as [[[fs rest]|e]|] eqn:E';
    simpl in Hr; try discriminate.
  injection Hr as <-. apply (fruits_from_iter_shape _ _ _ _ E').
Qed.

(** X13: when [main] gets past ingestion, it writes one massaged response
    and one flattened CSV row of twenty fruits per record, and a report of
    twenty fruits; the report of fruit [k] is [report] over the [k]-th fruit
    of every massaged response, so its two counts add up to the number of
    records. *)
Theorem main_outputs_shape (records : list (list string))
    (ingested massaged : list Response)
    (flattened : list (list (bool * option f64 * option f64)))
    (rep : list (nat * nat * f64 * f64)) :
  main_outputs records = Ret (ingested, massaged, flattened, rep) ->
  List.length massaged = List.length records /\
  List.length flattened = List.length records /\
  Forall (fun row => List.length row = List.length fruit_names) flattened /\
  List.length rep = List.length fruit_names /\
  (forall k d, (k < List.length fruit_names)%nat ->
     nth k rep (0%nat, 0%nat, Fin 0, Fin 0) = report (map (fun r => nth k r d) massaged)) /\
  Forall (fun e => let '(t, n, _, _) := e in (t + n)%nat = List.length records) rep.
Proof.
  unfold main_outputs. destruct (ingest records) as [rs|] eqn:E; simpl; intros H;
    [|discriminate].
  injection H as <- <- <- <-.
  destruct (ingest_shape _ _ E) as [Hl HF].
  assert (HF' : Forall (fun r => List.length r = List.length fruit_names)
                       (map Response_massage rs)).
  { apply Forall_map. eapply Forall_impl; [|exact HF]. intros r Hr.
    unfold Response_massage. rewrite length_map. exact Hr. }
  assert (Hcol := VecResponse_from_iter_columns (map Response_massage rs)
                    (mkFruit false None None EmptyString) HF').
  destruct Hcol as [Lc _].
  assert (Nc : forall k d, (k < List.length fruit_names)%nat ->
             nth k (VecResponse_from_iter (map Response_massage rs)) [] =
             map (fun r => nth k r d) (map Response_massage rs)).
  { intros k d Hk. apply (proj2 (VecResponse_from_iter_columns _ d HF') k Hk). }
  unfold FlattenedReport_from_vec_response.
  split; [rewrite length_map; exact Hl|].
  split; [rewrite !length_map; exact Hl|].
  split.
  { apply Forall_map. eapply Forall_impl; [|exact HF']. intros r Hr.
    unfold FlattenedResponse_map. rewrite length_map. exact Hr. }
  split; [rewrite length_map; exact Lc|].
  split.
  { intros k d Hk.
    rewrite <- (Nc k d Hk).
    change (0%nat, 0%nat, Fin 0, Fin 0) with (report []).
    rewrite map_nth. reflexivity. }
  apply Forall_forall. intros e Ie.
  apply in_map_iff in Ie as (col & <- & Ic).
  apply (In_nth _ _ []) in Ic as (k & Hk & <-).
  rewrite Lc in Hk.
  rewrite (Nc k (mkFruit false None None EmptyString) Hk).
  unfold report. rewrite report_counts_sum, !length_map. exact Hl.
Qed.

Definition sample_row : list string :=
  (["2024-01-01"; "a"; "b"] ++ List.concat (repeat ["Yes"; "3"; "about 9"] 20%nat))%list.

Lemma main_outputs_shape_witness :
  exists ingested massaged flattened rep,
  main_outputs [sample_row; sample_row] = Ret (ingested, massaged, flattened, rep) /\
  List.length massaged = 2%nat /\
  List.length flattened = 2%nat /\
  Forall (fun row => List.length row = List.length fruit_names) flattened /\
  List.length rep = List.length fruit_names /\
  (forall k d, (k < List.length fruit_names)%nat ->
     nth k rep (0%nat, 0%nat, Fin 0, Fin 0) = report (map (fun r => nth k r d) massaged)) /\
  Forall (fun e => let '(t, n, _, _) := e in (t + n)%nat = 2%nat) rep.
Proof.
  destruct (main_outputs [sample_row; sample_row]) as [[[[ing mas] flat] rep]|] eqn:E.
  - exists ing, mas, flat, rep. split; [reflexivity|].
    apply (main_outputs_shape [sample_row; sample_row] ing mas flat rep E).
  - vm_compute in E. discriminate.
Defined.

Definition ascii_whitespace : list ascii :=
  [" "%char; "009"%char; "010"%char; "012"%char; "013"%char].

(** X14: a cell starting with an ASCII whitespace character is never parsed
    strictly: Rust's float parser does not trim, so the cell goes to regex
    recovery or total failure and never yields a plain [Float]. *)
Theorem leading_whitespace_not_strict (c : ascii) (s : string) :
  In c ascii_whitespace ->
  parse_f64 (String c s) = None /\
  forall f, best_effort_parse_float (String c s) <> Ret (Ok (Float f)).
Proof.
  intros Hc.
  assert (P : parse_f64 (String c s) = None).
  { destruct Hc as [<-|[<-|[<-|[<-|[<-|[]]]]]]; reflexivity. }
  split; [exact P|]. intros f. unfold best_effort_parse_float. rewrite P.
  destruct (find REGEX (String c s)) as [m|]; simpl; [|discriminate].
  destruct (parse_f64 m); simpl; discriminate.
Qed.

Lemma leading_whitespace_not_strict_witness :
  In " "%char ascii_whitespace /\
  parse_f64 (String " " "4") = None /\
  forall f, best_effort_parse_float (String " " "4") <> Ret (Ok (Float f)).
Proof.
  assert (H : In " "%char ascii_whitespace) by (simpl; auto).
  split; [exact H | apply (leading_whitespace_not_strict " " "4" H)].
Defined.
